(** * Fleet polling and aggregation engine of the Xandeum pNode dashboard

    A shallow embedding of the engine in [src/components/Dashboard.tsx]:
    [rpcCall], [fetchNodeData], [fetchData], the derived fleet metrics, the
    [filteredNodes] query view and the refresh triggers of the
    [XandeumDashboard] component.

    Modelling conventions.
    - A promise is represented by the way it settles ([Settled]); [await]
      is the bind of that type and [try ... catch] is [try_catch].
    - [Promise.allSettled] is modelled with an explicit array of result
      slots, filled in the order in which the promises settle.
    - A JavaScript number is an IEEE double.  The records hold the exact
      value of each double (a rational [Q], or an integer [Z] for byte
      counts, ports and timestamps), which is all that comparisons need;
      the arithmetic of the derived metrics is done on the doubles
      themselves ([float], with [double_of_Q] and [double_of_Z]).
    - Strings are [string]; [toLowerCase] folds the ASCII letters, which is
      what it does on IP addresses and base58 keys.  Where a function counts
      and cuts characters ([truncateAddress]) a string is the list of its
      UTF-16 code units. *)

From Stdlib Require Import ZArith QArith Qround String Ascii List Bool Lia.
From Stdlib Require Import DecimalString Floats.
From stdpp Require Import base list.

Close Scope Q_scope.
Open Scope Z_scope.
Open Scope string_scope.
Open Scope list_scope.

(** ** JavaScript runtime notions used by the component *)

Module Js.

(** A thrown value: an [Error] object (with its [message]) or anything else. *)
Inductive Thrown : Type :=
| JsError (message : string)
| JsValue.

(** The way a promise settles (also: the way a block completes). *)
Inductive Settled (A : Type) : Type :=
| Fulfilled (value : A)
| Rejected (reason : Thrown).
Arguments Fulfilled {A} value.
Arguments Rejected {A} reason.

(** [await p; k] *)
Definition await {A B} (p : Settled A) (k : A -> Settled B) : Settled B :=
  match p with
  | Fulfilled v => k v
  | Rejected e => Rejected e
  end.

(** [try { body } catch (error) { handler }] *)
Definition try_catch {A} (body : Settled A) (handler : Thrown -> Settled A)
  : Settled A :=
  match body with
  | Fulfilled v => Fulfilled v
  | Rejected e => handler e
  end.

(** [error instanceof Error ? error.message : fallback] *)
Definition message_or (error : Thrown) (fallback : string) : string :=
  match error with
  | JsError m => m
  | JsValue => fallback
  end.

(** [x || fallback] on an optional string: [undefined] and [''] are falsy. *)
Definition or_else (x : option string) (fallback : string) : string :=
  match x with
  | Some EmptyString | None => fallback
  | Some s => s
  end.

(** Decimal rendering of an integer, as in a template literal. *)
Definition string_of_Z (z : Z) : string := NilZero.string_of_int (Z.to_int z).

(** The double nearest to an integer (the integer itself when it is one,
    as every array length is). *)
Definition double_of_Z (z : Z) : float :=
  SF2Prim (binary_normalize prec emax z 0 false).

(** The double whose exact value is [q].  For a rational that is not the
    value of a double, such as 1/10, it is the correctly rounded quotient
    of the doubles of numerator and denominator. *)
Definition double_of_Q (q : Q) : float :=
  let r := Qred q in
  let k := Z.log2 (Zpos (Qden r)) in
  if Z.eqb (2 ^ k) (Zpos (Qden r))
  then SF2Prim (binary_normalize prec emax (Qnum r) (- k) false)
  else PrimFloat.div (double_of_Z (Qnum r)) (double_of_Z (Zpos (Qden r))).

(** The exact value [m * 2^e] of the magnitude of a finite double. *)
Definition magnitude (m : positive) (e : Z) : Q :=
  if Z.leb 0 e then inject_Z (Zpos m * 2 ^ e)
  else Qmake (Zpos m) (Pos.pow 2 (Z.to_pos (- e))).

(** The integer nearest to a non-negative rational, the larger one on a
    tie. *)
Definition round_half_up (q : Q) : Z := Qfloor (Qplus q (1 # 2)).

(** [x.toFixed(0)]: the integer nearest to the exact value of the double,
    the one larger in magnitude on a tie, in decimal (for magnitudes below
    1e21; above, JavaScript switches to exponent notation). *)
Definition toFixed0 (x : float) : string :=
  match Prim2SF x with
  | S754_nan => "NaN"
  | S754_infinity s => if s then "-Infinity" else "Infinity"
  | S754_zero _ => "0"
  | S754_finite s m e =>
      let digits := string_of_Z (round_half_up (magnitude m e)) in
      if s then ("-" ++ digits)%string else digits
  end.

(** All characters are ASCII (below 128). *)
Fixpoint is_ascii (s : string) : bool :=
  match s with
  | EmptyString => true
  | String c r => (Nat.ltb (nat_of_ascii c) 128 && is_ascii r)%bool
  end.

(** [x > bound] on numbers *)
Definition Qgtb (x bound : Q) : bool := negb (Qle_bool x bound).

(** ASCII case folding of one character. *)
Definition lower_ascii (c : ascii) : ascii :=
  let n := nat_of_ascii c in
  if ((65 <=? n)%nat && (n <=? 90)%nat)%bool then ascii_of_nat (n + 32) else c.

(** [s.toLowerCase()] on ASCII text: the letters A-Z are folded, every
    other character is left as it is. *)
Fixpoint toLowerCase (s : string) : string :=
  match s with
  | EmptyString => EmptyString
  | String c r => String (lower_ascii c) (toLowerCase r)
  end.

(** [s.includes(t)]: [t] occurs in [s] at some position. *)
Fixpoint includes (s t : string) : bool :=
  if String.prefix t s then true
  else match s with
       | EmptyString => false
       | String _ r => includes r t
       end.

End Js.
Import Js.

(** ** Data model (the interfaces of Dashboard.tsx) *)

Record NodeStats : Type := {
  cpu_percent : Q;
  memory_percent : Q;
  storage_used : Z;
  storage_percent : Q;
  uptime : Z;
}.

Record PodInfo : Type := {
  pod_pubkey : string;
  pod_ip : option string;
  gossip_port : option Z;
}.

Record PodsResponse : Type := {
  total_count : Z;
  pods : list PodInfo;
}.

Inductive Status : Type := online | offline | degraded.

Record PNode : Type := {
  id : string;
  ip : string;
  status : Status;
  stats : option NodeStats;
  version : string;
  gossipPort : Z;
  pubkey : option string;
  lastSeen : option Z;
  error : option string;
}.

Record RpcError : Type := {
  code : Z;
  message : string;
}.

(** [RpcResponse<T>]: [rpc_result = None] is [result === undefined],
    [rpc_error = None] is a missing [error] field. *)
Record RpcResponse (T : Type) : Type := {
  jsonrpc : string;
  rpc_id : Z;
  rpc_result : option T;
  rpc_error : option RpcError;
}.
Arguments jsonrpc {T}.
Arguments rpc_id {T}.
Arguments rpc_result {T}.
Arguments rpc_error {T}.

#[local] Instance Status_eq_dec : EqDecision Status.
Proof. solve_decision. Defined.

Definition Status_eqb (a b : Status) : bool :=
  match a, b with
  | online, online | offline, offline | degraded, degraded => true
  | _, _ => false
  end.

(** ** RPC client *)

Module Rpc.

(** What [fetch] and the two [response.json()] calls of [rpcCall] can do. *)
Inductive FetchResult (T : Type) : Type :=
| FetchRejected (reason : Thrown)
    (* fetch rejects: network fault, or abort after REQUEST_TIMEOUT *)
| HttpNotOk (http_status : Z) (errorData : Settled (option string))
    (* !response.ok; the outcome of response.json() and its [error] field *)
| HttpOk (data : Settled (RpcResponse T)).
    (* response.ok; the outcome of response.json() *)
Arguments FetchRejected {T} reason.
Arguments HttpNotOk {T} http_status errorData.
Arguments HttpOk {T} data.

(** The envelope checks of [rpcCall] (lines 114-122). *)
Definition unwrap {T} (data : RpcResponse T) : Settled T :=
  match rpc_error data with
  | Some e => Rejected (JsError (message e))
  | None =>
      match rpc_result data with
      | None => Rejected (JsError "No result in response")
      | Some r => Fulfilled r
      end
  end.

(** [rpcCall<T>(ip, method, params)], as a function of what the transport
    does.  The [catch] clause clears the timer and rethrows. *)
Definition rpcCall {T} (transport : FetchResult T) : Settled T :=
  try_catch
    (match transport with
     | FetchRejected e => Rejected e
     | HttpNotOk st errorData =>
         await errorData (fun err =>
           Rejected (JsError (or_else err
             ("HTTP error! status: " ++ string_of_Z st)%string)))
     | HttpOk data => await data unwrap
     end)
    (fun error => Rejected error).

End Rpc.

(** ** Node poller *)

Module Poller.

(** [statsResult.status === 'fulfilled' ? statsResult.value : null] *)
Definition value_or_null {A} (r : Settled A) : option A :=
  match r with
  | Fulfilled v => Some v
  | Rejected _ => None
  end.

(** The classification block of [fetchNodeData] (lines 141-146). *)
Definition classify (stats : option NodeStats) : Status :=
  match stats with
  | Some s =>
      if (Qgtb (cpu_percent s) (90 # 1) || Qgtb (memory_percent s) (95 # 1))%bool
      then degraded else online
  | None => online
  end.

(** [podsData?.pods?.[0]?.pubkey ?? null] *)
Definition first_pubkey (podsData : option PodsResponse) : option string :=
  match podsData with
  | Some p =>
      match pods p with
      | pod :: _ => Some (pod_pubkey pod)
      | [] => None
      end
  | None => None
  end.

(** The snapshot built by the [catch] clause of [fetchNodeData]. *)
Definition catch_snapshot (ip : string) (error : Thrown) : PNode :=
  {| id := ip; ip := ip; status := offline; stats := None;
     version := "unknown"; gossipPort := 8001; pubkey := None;
     lastSeen := None;
     error := Some (message_or error "Connection failed") |}.

(** [fetchNodeData(ip)], as a function of the way its two calls settle and
    of the clock read by [Date.now()]. *)
Definition fetchNodeData (ip : string)
    (statsResult : Settled NodeStats) (podsResult : Settled PodsResponse)
    (now : Z) : Settled PNode :=
  try_catch
    (let stats := value_or_null statsResult in
     let podsData := value_or_null podsResult in
     let status := classify stats in
     Fulfilled
       {| id := ip; ip := ip; status := status; stats := stats;
          version := "v0.8 Reinheim"; gossipPort := 8001;
          pubkey := first_pubkey podsData;
          lastSeen := Some now; error := None |})
    (fun error => Fulfilled (catch_snapshot ip error)).

(** The poller on top of the RPC client: both calls go through [rpcCall]. *)
Definition poll (ip : string)
    (statsTransport : Rpc.FetchResult NodeStats)
    (podsTransport : Rpc.FetchResult PodsResponse) (now : Z) : Settled PNode :=
  fetchNodeData ip (Rpc.rpcCall statsTransport) (Rpc.rpcCall podsTransport) now.

End Poller.

(** ** Fleet poller *)

Module Fleet.

Section AllSettled.
Context {A : Type}.

(** The promise at position [i] settles: its outcome is written into slot
    [i] of the result array. *)
Definition settle (promises : list (Settled A))
    (slots : list (option (Settled A))) (i : nat)
  : list (option (Settled A)) :=
  match promises !! i with
  | Some r => <[i := Some r]> slots
  | None => slots
  end.

(** The slots after the promises listed in [completion] have settled, in
    that order. *)
Definition slots_after (promises : list (Settled A)) (completion : list nat)
  : list (option (Settled A)) :=
  foldl (settle promises) (replicate (length promises) None) completion.

(** [Promise.allSettled(promises)]: [None] while some promise is pending,
    otherwise the array of outcomes.  It never rejects. *)
Definition allSettled (promises : list (Settled A)) (completion : list nat)
  : option (list (Settled A)) :=
  mapM (fun slot => slot) (slots_after promises completion).
End AllSettled.

(** The snapshot substituted for a rejected poller promise (lines 386-396).
    [KNOWN_PNODE_IPS[index]] is always in range there. *)
Definition rejected_snapshot (ip : string) : PNode :=
  {| id := ip; ip := ip; status := offline; stats := None;
     version := "unknown"; gossipPort := 8001; pubkey := None;
     lastSeen := None; error := Some "Connection failed (CORS)" |}.

(** The snapshot of the [catch] clause of [fetchData] (lines 405-415). *)
Definition failed_snapshot (ip : string) : PNode :=
  {| id := ip; ip := ip; status := offline; stats := None;
     version := "unknown"; gossipPort := 8001; pubkey := None;
     lastSeen := None; error := Some "Connection failed" |}.

(** [results.map((result, index) => ...)] *)
Definition nodeResults (KNOWN_PNODE_IPS : list string)
    (results : list (Settled PNode)) : list PNode :=
  imap (fun index result =>
          match result with
          | Fulfilled value => value
          | Rejected _ =>
              rejected_snapshot (default "" (KNOWN_PNODE_IPS !! index))
          end) results.

Section Round.
(** The promise returned by the poller started for position [i]. *)
Variable poller : nat -> string -> Settled PNode.

(** [KNOWN_PNODE_IPS.map((ip) => fetchNodeData(ip))] *)
Definition fetchPromises (KNOWN_PNODE_IPS : list string)
  : list (Settled PNode) :=
  imap poller KNOWN_PNODE_IPS.

(** One round of [fetchData]: [None] while the round is still waiting,
    [Some (Fulfilled nodes)] when it ends with [setNodes(nodes)]. *)
Definition fetchData_with (KNOWN_PNODE_IPS : list string)
    (completion : list nat) : option (Settled (list PNode)) :=
  results ← allSettled (fetchPromises KNOWN_PNODE_IPS) completion;
  Some (try_catch
          (Fulfilled (nodeResults KNOWN_PNODE_IPS results))
          (fun _ => Fulfilled (map failed_snapshot KNOWN_PNODE_IPS))).
End Round.

(** What happens to the poller of one position during a round. *)
Record NodeOutcome : Type := {
  statsResult : Settled NodeStats;
  podsResult : Settled PodsResponse;
  clock : Z;
}.

(** [fetchData] with the pollers of the component. *)
Definition fetchData (KNOWN_PNODE_IPS : list string)
    (outcomes : nat -> NodeOutcome) (completion : list nat)
  : option (Settled (list PNode)) :=
  fetchData_with
    (fun i ip =>
       Poller.fetchNodeData ip (statsResult (outcomes i))
         (podsResult (outcomes i)) (clock (outcomes i)))
    KNOWN_PNODE_IPS completion.

End Fleet.

(** ** Aggregator: the derived values of [XandeumDashboard] (lines 438-455) *)

Module Aggregator.

(** [x / y] with the division made observable: [None] stands for a division
    by zero (JavaScript would produce [NaN] or [Infinity]).  The divisor is
    always an array length, whose double is zero only when the length is. *)
Definition js_div (x : float) (y : Q) : option float :=
  if Qeq_bool y (0 # 1)%Q then None else Some (PrimFloat.div x (double_of_Q y)).

(** [xs.length] as a number *)
Definition js_length {A} (xs : list A) : Q := inject_Z (Z.of_nat (length xs)).

Definition totalNodes (nodes : list PNode) : Q := js_length nodes.

Definition onlineNodes (nodes : list PNode) : Q :=
  js_length (List.filter (fun n => Status_eqb (status n) online) nodes).

Definition offlineNodes (nodes : list PNode) : Q :=
  js_length (List.filter (fun n => Status_eqb (status n) offline) nodes).

Definition nodesWithStats (nodes : list PNode) : list PNode :=
  List.filter (fun n => match stats n with Some _ => true | None => false end)
    nodes.

(** [n.stats?.cpu_percent ?? 0] *)
Definition cpu_or_zero (n : PNode) : float :=
  match stats n with
  | Some s => double_of_Q (cpu_percent s)
  | None => PrimFloat.zero
  end.

(** [n.stats?.storage_used ?? 0] *)
Definition storage_or_zero (n : PNode) : float :=
  match stats n with
  | Some s => double_of_Z (storage_used s)
  | None => PrimFloat.zero
  end.

Definition avgCpu (nodes : list PNode) : option float :=
  if Qgtb (js_length (nodesWithStats nodes)) (0 # 1)%Q
  then js_div
         (fold_left (fun acc n => PrimFloat.add acc (cpu_or_zero n))
            (nodesWithStats nodes) PrimFloat.zero)
         (js_length (nodesWithStats nodes))
  else Some PrimFloat.zero.

Definition totalStorage (nodes : list PNode) : float :=
  fold_left (fun acc n => PrimFloat.add acc (storage_or_zero n))
    nodes PrimFloat.zero.

(** The number rendered by [healthPercent], before [toFixed(0)]. *)
Definition healthValue (nodes : list PNode) : option float :=
  if Qgtb (totalNodes nodes) (0 # 1)%Q
  then q ← js_div (double_of_Q (onlineNodes nodes)) (totalNodes nodes);
       Some (PrimFloat.mul q (double_of_Z 100))
  else Some PrimFloat.zero.

Definition healthPercent (nodes : list PNode) : option string :=
  if Qgtb (totalNodes nodes) (0 # 1)%Q
  then q ← js_div (double_of_Q (onlineNodes nodes)) (totalNodes nodes);
       Some (toFixed0 (PrimFloat.mul q (double_of_Z 100)))
  else Some "0".

Definition showCorsWarning (nodes : list PNode) : bool :=
  (Qeq_bool (offlineNodes nodes) (totalNodes nodes)
   && Qgtb (totalNodes nodes) (0 # 1)%Q)%bool.

(** A snapshot with the given CPU load, storage and status, for examples. *)
Definition sample (cpu : Q) (storage : Z) (st : Status) : PNode :=
  {| id := "10.0.0.1"; ip := "10.0.0.1"; status := st;
     stats := Some {| cpu_percent := cpu; memory_percent := (30 # 1)%Q;
                      storage_used := storage; storage_percent := (1 # 1)%Q;
                      uptime := 60 |};
     version := "v0.8 Reinheim"; gossipPort := 8001; pubkey := None;
     lastSeen := Some 1766180000000; error := None |}.

(** The metrics that are present, in the order of the nodes. *)
Definition present (nodes : list PNode) : list NodeStats := omap stats nodes.

(** The sum of doubles that [reduce((acc, x) => acc + x, 0)] computes: from
    the left, each addition rounded. *)
Definition sum_doubles (xs : list float) : float :=
  fold_left PrimFloat.add xs PrimFloat.zero.

End Aggregator.

(** ** Query view: [filteredNodes] (lines 429-436) *)

Module QueryView.

(** ['all' | 'online' | 'offline' | 'degraded'] *)
Inductive StatusFilter : Type :=
| filter_all
| filter_status (s : Status).

Definition matchesSearch (searchQuery : string) (node : PNode) : bool :=
  (includes (toLowerCase (ip node)) (toLowerCase searchQuery)
   || match pubkey node with
      | Some key => includes (toLowerCase key) (toLowerCase searchQuery)
      | None => false (* [undefined], which is falsy *)
      end)%bool.

Definition matchesStatus (statusFilter : StatusFilter) (node : PNode) : bool :=
  match statusFilter with
  | filter_all => true
  | filter_status s => Status_eqb (status node) s
  end.

Definition filteredNodes (nodes : list PNode) (searchQuery : string)
    (statusFilter : StatusFilter) : list PNode :=
  List.filter
    (fun node => (matchesSearch searchQuery node
                  && matchesStatus statusFilter node)%bool)
    nodes.

(** [t] occurs in [s]: the reference notion of substring. *)
Definition substring_of (t s : string) : Prop :=
  exists pre post : string, s = (pre ++ t ++ post)%string.

End QueryView.

(** ** The query view of the second dashboard component
       ([XandeumLuxeDashboard]): no case folding and no status filter *)

Module Luxe.

Definition filteredNodes (nodes : list PNode) (searchQuery : string)
  : list PNode :=
  List.filter
    (fun node =>
       (includes (ip node) searchQuery
        || match pubkey node with
           | Some key => includes key searchQuery
           | None => false
           end)%bool)
    nodes.

End Luxe.

(** ** Poll triggers of the component (lines 373-427 and the Refresh button) *)

Module Trigger.

Definition KNOWN_PNODE_IPS : list string :=
  [ "173.212.220.65"; "62.171.169.176"; "161.97.151.101"; "173.249.11.155";
    "62.171.163.135"; "173.212.237.139"; "173.212.255.210"; "173.212.237.99";
    "173.249.7.61"; "144.91.109.142" ].

(** The state of the component that the triggers read and write, with the
    number of [fetchData] invocations that have started and not finished. *)
Record Dashboard : Type := {
  nodes : list PNode;
  loading : bool;
  lastUpdate : option Z;
  isRefreshing : bool;
  inflight : nat;
}.

(** The [useState] defaults. *)
Definition initial : Dashboard :=
  {| nodes := []; loading := true; lastUpdate := None;
     isRefreshing := false; inflight := 0 |}.

Inductive Event : Type :=
| Tick                                    (* setInterval(fetchData, REFRESH_INTERVAL) fires *)
| Click                                   (* the user clicks the Refresh button *)
| Finish (nodeResults : list PNode) (now : Z)  (* a round reaches the end of its try block *)
| Fail.                                   (* a round goes through its catch clause *)

(** A call of [fetchData] up to its first [await]: [setIsRefreshing(true)]. *)
Definition start_round (d : Dashboard) : Dashboard :=
  {| nodes := nodes d; loading := loading d; lastUpdate := lastUpdate d;
     isRefreshing := true; inflight := S (inflight d) |}.

(** The rest of a call of [fetchData], [finally] clause included. *)
Definition end_round (new_nodes : list PNode) (stamp : option Z)
    (d : Dashboard) : Dashboard :=
  {| nodes := new_nodes; loading := false;
     lastUpdate := match stamp with Some t => Some t | None => lastUpdate d end;
     isRefreshing := false; inflight := pred (inflight d) |}.

(** The effect's first call of [fetchData] on mount. *)
Definition mounted : Dashboard := start_round initial.

(** One event; [None] when the event cannot happen in that state. *)
Definition step (d : Dashboard) (ev : Event) : option Dashboard :=
  match ev with
  | Tick => Some (start_round d)
  | Click =>
      (* <button onClick={fetchData} disabled={isRefreshing}> *)
      if isRefreshing d then Some d else Some (start_round d)
  | Finish nodeResults now =>
      if (0 <? inflight d)%nat then Some (end_round nodeResults (Some now) d)
      else None
  | Fail =>
      if (0 <? inflight d)%nat
      then Some (end_round (map Fleet.failed_snapshot KNOWN_PNODE_IPS) None d)
      else None
  end.

(** The states visited by a sequence of events, the starting one included. *)
Fixpoint trace (d : Dashboard) (evs : list Event) : list Dashboard :=
  d :: match evs with
       | [] => []
       | ev :: rest =>
           match step d ev with
           | Some d' => trace d' rest
           | None => []
           end
       end.

(** Every interval tick of the sequence arrives while no round is active. *)
Fixpoint ticks_when_idle (d : Dashboard) (evs : list Event) : bool :=
  match evs with
  | [] => true
  | ev :: rest =>
      (match ev with
       | Tick => Nat.eqb (inflight d) 0
       | _ => true
       end
       && match step d ev with
          | Some d' => ticks_when_idle d' rest
          | None => true
          end)%bool
  end.

(** At most one round is in flight, and the refreshing flag tells whether
    one is. *)
Definition single_flight (d : Dashboard) : Prop :=
  (inflight d = 0%nat /\ isRefreshing d = false) \/
  (inflight d = 1%nat /\ isRefreshing d = true).

End Trigger.

(** ** Offline snapshots *)


(** Exactly one of three propositions holds. *)
Definition exactly_one (A B C : Prop) : Prop :=
  (A /\ ~ B /\ ~ C) \/ (~ A /\ B /\ ~ C) \/ (~ A /\ ~ B /\ C).

(** ** Formatting helpers of Dashboard.tsx (lines 181-194) *)

Module Format.

(** [formatUptime(seconds)]; [None] is [undefined] or [null].  On integers
    [Math.floor(x / k)] is [x / k] and [%] is the truncating remainder. *)
Definition formatUptime (seconds : option Z) : string :=
  match seconds with
  | None => "N/A"
  | Some seconds =>
      if Z.eqb seconds 0 then "N/A"
      else
        let days := seconds / 86400 in
        let hours := Z.rem seconds 86400 / 3600 in
        let mins := Z.rem seconds 3600 / 60 in
        if Z.ltb 0 days
        then (string_of_Z days ++ "d " ++ string_of_Z hours ++ "h")%string
        else if Z.ltb 0 hours
        then (string_of_Z hours ++ "h " ++ string_of_Z mins ++ "m")%string
        else (string_of_Z mins ++ "m")%string
  end.

(** The UTF-16 code units of an ASCII literal. *)
Definition code_units (s : string) : list N :=
  map N_of_ascii (list_ascii_of_string s).

(** [truncateAddress(addr)]; [None] is [undefined] or [null].  The string
    is the list of its UTF-16 code units: [addr.length] counts them,
    [addr.slice(0, 6)] keeps the first six and [addr.slice(-4)] the last
    four. *)
Definition truncateAddress (addr : option (list N)) : list N :=
  match addr with
  | None => code_units "N/A"
  | Some a =>
      if (bool_decide (a = []) || Nat.ltb (length a) 12)%bool then a
      else take 6 a ++ code_units "..." ++ drop (length a - 4) a
  end.

End Format.

(** ** The forwarding endpoint [/api/prpc/[ip]] (POST handler) *)

Module Proxy.

(** The three responses the handler builds: 200 with the forwarded JSON,
    or 400 / 500 with [{ error: message }]. *)
Inductive Response (T : Type) : Type :=
| Forwarded (data : T)
| Failure (http_status : Z) (error : string).
Arguments Forwarded {T} data.
Arguments Failure {T} http_status error.

(** [POST({ params, request })], as a function of the [ip] parameter
    ([None] when the route has none), of the way [request.json()] settles,
    and of what the upstream [fetch] and its [response.json()] do with the
    request body. *)
Definition POST {Req T} (ip : option string) (requestJson : Settled Req)
    (upstream : Req -> Settled (Settled T)) : Settled (Response T) :=
  if match ip with
     | None => true
     | Some a => String.eqb a ""
     end
  then Fulfilled (Failure 400 "IP address required")
  else
    try_catch
      (await requestJson (fun body =>
       await (upstream body) (fun responseJson =>
       await responseJson (fun data =>
       Fulfilled (Forwarded data)))))
      (fun error =>
         Fulfilled (Failure 500 (message_or error "Connection failed"))).

(** What [rpcCall]'s [fetch] sees when it goes through the endpoint:
    [response.ok] holds for the forwarded answer only. *)
Definition seen_by_client {T} (answer : Settled (Response (RpcResponse T)))
  : Rpc.FetchResult T :=
  match answer with
  | Fulfilled (Forwarded data) => Rpc.HttpOk (Fulfilled data)
  | Fulfilled (Failure st msg) => Rpc.HttpNotOk st (Fulfilled (Some msg))
  | Rejected e => Rpc.FetchRejected e
  end.

(** [rpcCall(ip, method)] served by the endpoint. *)
Definition rpcCall_via {Req T} (ip : string) (requestJson : Settled Req)
    (upstream : Req -> Settled (Settled (RpcResponse T))) : Settled T :=
  Rpc.rpcCall (seen_by_client (POST (Some ip) requestJson upstream)).

End Proxy.

(** * Properties *)

(** ** RPC client *)

Section RpcFacts.
Context {T : Type}.

Lemma rpcCall_transport_fault (e : Thrown) :
  Rpc.rpcCall (T := T) (Rpc.FetchRejected e) = Rejected e.
Proof. reflexivity. Qed.

Lemma rpcCall_envelope (data : RpcResponse T) :
  Rpc.rpcCall (Rpc.HttpOk (Fulfilled data)) = Rpc.unwrap data.
Proof. unfold Rpc.rpcCall; simpl. now destruct (Rpc.unwrap data). Qed.

Lemma rpcCall_http_error (st : Z) (err : option string) :
  exists m, Rpc.rpcCall (T := T) (Rpc.HttpNotOk st (Fulfilled err))
            = Rejected (JsError m).
Proof. eexists; reflexivity. Qed.
End RpcFacts.

(** C8. When [rpcCall] receives a response envelope, exactly one of three
    things happens: the envelope has an [error] field and the call is
    rejected with an [Error] carrying the remote message; it has neither
    [error] nor [result] and the call is rejected with the error
    "No result in response"; or it has a [result] and no [error], and the
    call returns that result. *)
Theorem rpcCall_envelope_outcomes (T : Type) (data : RpcResponse T) :
  exactly_one
    (exists e, rpc_error data = Some e /\
       Rpc.rpcCall (Rpc.HttpOk (Fulfilled data))
       = Rejected (JsError (message e)))
    (rpc_error data = None /\ rpc_result data = None /\
       Rpc.rpcCall (Rpc.HttpOk (Fulfilled data))
       = Rejected (JsError "No result in response"))
    (exists r, rpc_error data = None /\ rpc_result data = Some r /\
       Rpc.rpcCall (Rpc.HttpOk (Fulfilled data)) = Fulfilled r).
Proof.
  rewrite rpcCall_envelope. unfold exactly_one, Rpc.unwrap.
  destruct (rpc_error data) as [e|] eqn:He.
  - left. split; [exists e; auto|].
    split; [intros (Hn & _); discriminate | intros (r & Hn & _); discriminate].
  - destruct (rpc_result data) as [r|] eqn:Hr.
    + right; right. split; [intros (e & Hn & _); discriminate|].
      split; [intros (_ & Hn & _); discriminate | exists r; auto].
    + right; left. split; [intros (e & Hn & _); discriminate|].
      split; [auto | intros (r & _ & Hn & _); discriminate].
Qed.

(** ** Node poller *)

Lemma Qgtb_spec (x bound : Q) : Qgtb x bound = true <-> (bound < x)%Q.
Proof.
  unfold Qgtb. rewrite negb_true_iff, <- not_true_iff_false, Qle_bool_iff.
  split; [apply Qnot_le_lt | apply Qlt_not_le].
Qed.

Lemma classify_degraded (s : NodeStats) :
  Poller.classify (Some s) = degraded <->
  (90 # 1 < cpu_percent s \/ 95 # 1 < memory_percent s)%Q.
Proof.
  unfold Poller.classify. rewrite <- !Qgtb_spec, <- orb_true_iff.
  destruct (_ || _)%bool; split; intros; congruence.
Qed.

Lemma classify_online (s : NodeStats) :
  Poller.classify (Some s) = online <->
  ~ (90 # 1 < cpu_percent s \/ 95 # 1 < memory_percent s)%Q.
Proof.
  rewrite <- classify_degraded. unfold Poller.classify.
  destruct (_ || _)%bool; split; intros; congruence.
Qed.


(** The body of the [try] block of [fetchNodeData] cannot throw, so its
    [catch] clause is never entered. *)
Lemma fetchNodeData_normal_path ip sr pr now :
  Poller.fetchNodeData ip sr pr now =
  Fulfilled
    {| id := ip; ip := ip;
       status := Poller.classify (Poller.value_or_null sr);
       stats := Poller.value_or_null sr;
       version := "v0.8 Reinheim"; gossipPort := 8001;
       pubkey := Poller.first_pubkey (Poller.value_or_null pr);
       lastSeen := Some now; error := None |}.
Proof. reflexivity. Qed.

(** C5. When the metrics call succeeds with metrics [s], the snapshot
    carries [s] and its status is [degraded] exactly when
    [cpu_percent > 90] or [memory_percent > 95], and [online] otherwise; the
    status is the value of [classify] on the metrics alone, whatever the
    address, the membership outcome and the clock. *)
Theorem status_of_successful_metrics
    (ip : string) (s : NodeStats) (pr : Settled PodsResponse) (now : Z) :
  exists snap,
    Poller.fetchNodeData ip (Fulfilled s) pr now = Fulfilled snap /\
    stats snap = Some s /\
    (status snap = degraded <->
       (90 # 1 < cpu_percent s \/ 95 # 1 < memory_percent s)%Q) /\
    (status snap = online <->
       ~ (90 # 1 < cpu_percent s \/ 95 # 1 < memory_percent s)%Q) /\
    status snap = Poller.classify (Some s).
Proof.
  rewrite fetchNodeData_normal_path. eexists; split; [reflexivity|]. simpl.
  split; [reflexivity|]. split; [apply classify_degraded|].
  split; [apply classify_online | reflexivity].
Qed.

(** C1 (as stated, refuted).  The metrics call times out and the membership
    call succeeds with key "abc123": the snapshot is [online], not
    [offline]. *)
Lemma metrics_failure_alone_not_offline :
  exists snap,
    Poller.fetchNodeData "10.0.0.7"
      (Rejected (JsError "The operation was aborted."))
      (Fulfilled {| total_count := 1;
                    pods := [ {| pod_pubkey := "abc123"; pod_ip := None;
                                 gossip_port := Some 8001 |} ] |})
      1766180000000
    = Fulfilled snap /\
    status snap = online /\ status snap <> offline /\
    pubkey snap = Some "abc123".
Proof. eexists; split; [reflexivity|]. simpl. repeat split. discriminate. Qed.

(** C1 (amended).  When the metrics call fails and the membership call
    succeeds, the poller returns a snapshot whose status is [online], with
    metrics absent, the public key of the first membership entry attached,
    the clock value as timestamp and no error recorded. *)
Theorem metrics_failure_alone_snapshot
    (ip : string) (e : Thrown) (p : PodsResponse) (now : Z) :
  Poller.fetchNodeData ip (Rejected e) (Fulfilled p) now =
  Fulfilled
    {| id := ip; ip := ip; status := online; stats := None;
       version := "v0.8 Reinheim"; gossipPort := 8001;
       pubkey := pod_pubkey <$> head (pods p);
       lastSeen := Some now; error := None |}.
Proof.
  rewrite fetchNodeData_normal_path. simpl. do 2 f_equal.
  now destruct (pods p).
Qed.

(** C6 (the code at the failing input).  When both calls fail, the poller
    still returns through its normal path: the snapshot is [online], has a
    timestamp (the clock value) and no error, although no call succeeded. *)
Theorem both_calls_fail_snapshot (ip : string) (e1 e2 : Thrown) (now : Z) :
  Poller.fetchNodeData ip (Rejected e1) (Rejected e2) now =
  Fulfilled
    {| id := ip; ip := ip; status := online; stats := None;
       version := "v0.8 Reinheim"; gossipPort := 8001; pubkey := None;
       lastSeen := Some now; error := None |}.
Proof. reflexivity. Qed.

(** ** Fleet poller *)

Section AllSettledFacts.
Context {A : Type}.
Implicit Types (promises : list (Settled A)) (completion : list nat).

Lemma slots_after_length promises completion :
  length (Fleet.slots_after promises completion) = length promises.
Proof.
  unfold Fleet.slots_after.
  induction completion as [|i completion IH] using rev_ind; simpl.
  - apply length_replicate.
  - rewrite foldl_snoc. unfold Fleet.settle at 1.
    destruct (promises !! i); [rewrite length_insert|]; exact IH.
Qed.

(** Slot [i] holds the outcome of promise [i] once it has settled, and is
    empty before. *)
Lemma slots_after_lookup promises completion i :
  (i < length promises)%nat ->
  Fleet.slots_after promises completion !! i
  = Some (if decide (i ∈ completion) then promises !! i else None).
Proof.
  intros Hi.
  induction completion as [|j completion IH] using rev_ind.
  - unfold Fleet.slots_after; simpl. rewrite lookup_replicate_2 by exact Hi.
    destruct (decide (i ∈ [])) as [Hin|]; [|reflexivity].
    now apply elem_of_nil in Hin.
  - pose proof (slots_after_length promises completion) as Hlen.
    unfold Fleet.slots_after in *. rewrite foldl_snoc.
    unfold Fleet.settle at 1.
    destruct (promises !! j) as [r|] eqn:Hj.
    + rewrite list_lookup_insert.
      destruct (decide (j = i ∧ (j < length _)%nat)) as [[-> _]|Hne].
      * rewrite decide_True by (apply elem_of_app; right; apply list_elem_of_singleton; reflexivity).
        now rewrite Hj.
      * rewrite IH.
        assert (j <> i) as Hji.
        { intros ->. apply Hne. split; [reflexivity|]. now rewrite Hlen. }
        f_equal. destruct (decide (i ∈ completion)) as [Hin|Hin].
        -- rewrite decide_True; [reflexivity|]. apply elem_of_app; now left.
        -- rewrite decide_False; [reflexivity|].
           rewrite elem_of_app, list_elem_of_singleton. intros [?|?]; congruence.
    + rewrite IH.
      assert (j <> i) as Hji.
      { intros ->. apply lookup_ge_None in Hj. lia. }
      f_equal. destruct (decide (i ∈ completion)) as [Hin|Hin].
      * rewrite decide_True; [reflexivity|]. apply elem_of_app; now left.
      * rewrite decide_False; [reflexivity|].
        rewrite elem_of_app, list_elem_of_singleton. intros [?|?]; congruence.
Qed.

(** Once every promise has settled, in whatever order, [allSettled] yields
    the outcomes in the order of the promises. *)
Lemma allSettled_complete promises completion :
  (forall i, (i < length promises)%nat -> i ∈ completion) ->
  Fleet.allSettled promises completion = Some promises.
Proof.
  intros Hall. unfold Fleet.allSettled.
  replace (Fleet.slots_after promises completion) with (Some <$> promises).
  { now apply mapM_fmap_Some. }
  apply list_eq; intros i. rewrite list_lookup_fmap.
  destruct (decide (i < length promises)%nat) as [Hi|Hi].
  - rewrite slots_after_lookup by exact Hi.
    rewrite decide_True by now apply Hall.
    destruct (lookup_lt_is_Some_2 promises i Hi) as [r ->]. reflexivity.
  - assert (length promises <= i)%nat as Hge by lia.
    rewrite (proj2 (lookup_ge_None promises i) Hge). simpl. symmetry.
    apply lookup_ge_None. now rewrite slots_after_length.
Qed.

(** While some promise is pending, [allSettled] is pending as well. *)
Lemma allSettled_pending promises completion i :
  (i < length promises)%nat -> i ∉ completion ->
  Fleet.allSettled promises completion = None.
Proof.
  intros Hi Hnot. unfold Fleet.allSettled.
  destruct (mapM _ _) as [rs|] eqn:Hm; [|reflexivity].
  apply mapM_Some in Hm.
  pose proof (slots_after_lookup promises completion i Hi) as Hs.
  rewrite decide_False in Hs by exact Hnot.
  destruct (Forall2_lookup_l _ _ _ _ _ Hm Hs) as (y & _ & Hy). discriminate.
Qed.
End AllSettledFacts.

Lemma completion_covers (n : nat) (completion : list nat) :
  completion ≡ₚ seq 0 n -> forall i, (i < n)%nat -> i ∈ completion.
Proof.
  intros Hp i Hi. rewrite Hp. apply elem_of_seq. lia.
Qed.

Lemma nodeResults_lookup poller (ips : list string) (i : nat) :
  Fleet.nodeResults ips (Fleet.fetchPromises poller ips) !! i
  = (fun ip => match poller i ip with
               | Fulfilled value => value
               | Rejected _ => Fleet.rejected_snapshot ip
               end) <$> ips !! i.
Proof.
  unfold Fleet.nodeResults, Fleet.fetchPromises.
  rewrite !list_lookup_imap. destruct (ips !! i) as [ip|]; reflexivity.
Qed.

Lemma fetchData_with_complete poller (ips : list string) completion :
  completion ≡ₚ seq 0 (length ips) ->
  Fleet.fetchData_with poller ips completion
  = Some (Fulfilled (Fleet.nodeResults ips (Fleet.fetchPromises poller ips))).
Proof.
  intros Hp. unfold Fleet.fetchData_with.
  rewrite allSettled_complete; [reflexivity|].
  unfold Fleet.fetchPromises. rewrite length_imap.
  now apply completion_covers.
Qed.

(** [allSettled] can only ever yield the outcomes of its promises. *)
Lemma allSettled_Some {A} (promises rs : list (Settled A)) completion :
  Fleet.allSettled promises completion = Some rs -> rs = promises.
Proof.
  intros Hrun.
  destruct (decide (Forall (fun i => i ∈ completion)
                      (seq 0 (length promises)))) as [Hall|Hsome].
  - rewrite allSettled_complete in Hrun; [congruence|].
    intros i Hi. rewrite Forall_forall in Hall. apply Hall, elem_of_seq. lia.
  - apply not_Forall_Exists in Hsome; [|intros i; apply _].
    apply Exists_exists in Hsome as (i & Hi & Hnot).
    apply elem_of_seq in Hi.
    rewrite (allSettled_pending promises completion i) in Hrun;
      [discriminate | lia | exact Hnot].
Qed.







(** C2. Once every per-node poll of a round has settled, in whatever order,
    [fetchData] publishes exactly one snapshot per configured address, and
    the snapshot at position [i] carries the address at position [i]. *)
Theorem fetchData_keeps_address_order
    (ips : list string) (outcomes : nat -> Fleet.NodeOutcome)
    (completion : list nat)
    (Hsettled : completion ≡ₚ seq 0 (length ips)) :
  exists nodes,
    Fleet.fetchData ips outcomes completion = Some (Fulfilled nodes) /\
    length nodes = length ips /\
    ip <$> nodes = ips /\
    forall i, ip <$> nodes !! i = ips !! i.
Proof.
  unfold Fleet.fetchData. rewrite fetchData_with_complete by exact Hsettled.
  eexists; split; [reflexivity|].
  assert (forall i,
    ip <$> Fleet.nodeResults ips (Fleet.fetchPromises
      (fun i ip => Poller.fetchNodeData ip (Fleet.statsResult (outcomes i))
         (Fleet.podsResult (outcomes i)) (Fleet.clock (outcomes i))) ips) !! i
    = ips !! i) as Hlookup.
  { intros i. rewrite nodeResults_lookup.
    destruct (ips !! i) as [a|]; reflexivity. }
  split; [|split; [|exact Hlookup]].
  - unfold Fleet.nodeResults, Fleet.fetchPromises. now rewrite !length_imap.
  - apply list_eq; intros i. rewrite list_lookup_fmap. apply Hlookup.
Qed.

(** Three addresses whose polls settle in the order 2, 0, 1, with the first
    node failing both calls. *)
Lemma fetchData_keeps_address_order_witness :
  exists nodes,
    Fleet.fetchData ["10.0.0.1"; "10.0.0.2"; "10.0.0.3"]
      (fun i => {| Fleet.statsResult :=
                     if Nat.eqb i 0 then Rejected (JsError "timeout")
                     else Fulfilled {| cpu_percent := 20 # 1;
                                       memory_percent := 30 # 1;
                                       storage_used := 1024;
                                       storage_percent := 1 # 1;
                                       uptime := 60 |};
                   Fleet.podsResult := Rejected JsValue;
                   Fleet.clock := 1766180000000 |})
      [2; 0; 1]%nat
    = Some (Fulfilled nodes) /\
    length nodes = length ["10.0.0.1"; "10.0.0.2"; "10.0.0.3"] /\
    ip <$> nodes = ["10.0.0.1"; "10.0.0.2"; "10.0.0.3"] /\
    forall i, ip <$> nodes !! i = ["10.0.0.1"; "10.0.0.2"; "10.0.0.3"] !! i.
Proof.
  apply (fetchData_keeps_address_order
           ["10.0.0.1"; "10.0.0.2"; "10.0.0.3"] _ [2; 0; 1]%nat).
  exact (Permutation_cons_append [0; 1]%nat 2%nat).
Defined.

(** C3. The node poller always returns a snapshot, for every way its two
    calls settle and for everything the transport can do, and never
    rejects.  At the fleet level, a poller promise that rejects is replaced
    by an offline snapshot for its own address: the round ends normally with
    one entry per address, each entry depending on the poller of its own
    position only. *)
Theorem poller_total_and_faults_absorbed
    (ip0 : string) (sr : Settled NodeStats) (pr : Settled PodsResponse)
    (ts : Rpc.FetchResult NodeStats) (tp : Rpc.FetchResult PodsResponse)
    (now : Z)
    (poller : nat -> string -> Settled PNode) (ips : list string)
    (completion : list nat) :
  (exists snap, Poller.fetchNodeData ip0 sr pr now = Fulfilled snap) /\
  (exists snap, Poller.poll ip0 ts tp now = Fulfilled snap) /\
  (completion ≡ₚ seq 0 (length ips) ->
   exists nodes,
     Fleet.fetchData_with poller ips completion = Some (Fulfilled nodes) /\
     length nodes = length ips /\
     forall i,
       nodes !! i
       = (fun ip => match poller i ip with
                    | Fulfilled snap => snap
                    | Rejected _ => Fleet.rejected_snapshot ip
                    end) <$> ips !! i).
Proof.
  split; [|split].
  - rewrite fetchNodeData_normal_path. eexists; reflexivity.
  - unfold Poller.poll. rewrite fetchNodeData_normal_path. eexists; reflexivity.
  - intros Hsettled. rewrite fetchData_with_complete by exact Hsettled.
    eexists; split; [reflexivity|]. split.
    + unfold Fleet.nodeResults, Fleet.fetchPromises. now rewrite !length_imap.
    + intros i. apply nodeResults_lookup.
Qed.

(** A round of three addresses in which the poller of the second address
    rejects and the polls settle in the order 1, 2, 0. *)
Lemma poller_total_and_faults_absorbed_witness :
  exists nodes,
    Fleet.fetchData_with
      (fun i ip =>
         if Nat.eqb i 1 then Rejected (JsError "unexpected")
         else Poller.fetchNodeData ip (Rejected JsValue) (Rejected JsValue) 7)
      ["10.0.0.1"; "10.0.0.2"; "10.0.0.3"] [1; 2; 0]%nat
    = Some (Fulfilled nodes) /\
    status <$> nodes = [online; offline; online] /\
    ip <$> nodes = ["10.0.0.1"; "10.0.0.2"; "10.0.0.3"].
Proof.
  destruct (poller_total_and_faults_absorbed
              "10.0.0.1" (Rejected JsValue) (Rejected JsValue)
              (Rpc.FetchRejected JsValue) (Rpc.FetchRejected JsValue) 7
              (fun i ip =>
                 if Nat.eqb i 1 then Rejected (JsError "unexpected")
                 else Poller.fetchNodeData ip (Rejected JsValue)
                        (Rejected JsValue) 7)
              ["10.0.0.1"; "10.0.0.2"; "10.0.0.3"] [1; 2; 0]%nat)
    as (_ & _ & Hfleet).
  destruct Hfleet as (nodes & Hrun & _ & _).
  { symmetry. exact (Permutation_cons_append [1; 2]%nat 0%nat). }
  exists nodes. split; [exact Hrun|].
  vm_compute in Hrun. injection Hrun as <-. split; reflexivity.
Defined.

(** ** Aggregator *)

Lemma Status_eqb_eq (a b : Status) : Status_eqb a b = true <-> a = b.
Proof. destruct a, b; simpl; split; intros; congruence. Qed.

Section AggregatorFacts.
Import Aggregator.

Lemma js_length_nonneg {A} (xs : list A) : (0 <= js_length xs)%Q.
Proof.
  unfold js_length. change (0%Q) with (inject_Z 0).
  rewrite <- Zle_Qle. lia.
Qed.

Lemma js_length_le_zero {A} (xs : list A) :
  Qle_bool (js_length xs) (0 # 1) = true <-> xs = [].
Proof.
  rewrite Qle_bool_iff. unfold js_length.
  change (0 # 1)%Q with (inject_Z 0). rewrite <- Zle_Qle.
  destruct xs; simpl; split; intros; try reflexivity; try discriminate; lia.
Qed.

Lemma js_length_positive {A} (xs : list A) :
  Qgtb (js_length xs) (0 # 1) = if xs is [] then false else true.
Proof.
  unfold Qgtb. pose proof (js_length_le_zero xs) as H.
  destruct (Qle_bool _ _), xs; simpl; try reflexivity.
  - pose proof (proj1 H eq_refl). discriminate.
  - pose proof (proj2 H eq_refl). discriminate.
Qed.

Lemma double_of_Q_inject_Z (z : Z) : double_of_Q (inject_Z z) = double_of_Z z.
Proof.
  unfold double_of_Q.
  assert (Qred (inject_Z z) = inject_Z z) as ->.
  { unfold Qred, inject_Z.
    pose proof (Z.ggcd_gcd z 1) as Hg.
    pose proof (Z.ggcd_correct_divisors z 1) as Hd.
    destruct (Z.ggcd z 1) as [g [a b]]. simpl in Hg, Hd.
    rewrite Z.gcd_1_r in Hg. subst g. destruct Hd as [Ha Hb].
    simpl. f_equal; [lia|]. replace b with 1 by lia. reflexivity. }
  reflexivity.
Qed.

Lemma js_div_defined {A} (x : float) (xs : list A) :
  xs <> [] ->
  js_div x (js_length xs)
  = Some (PrimFloat.div x (double_of_Z (Z.of_nat (length xs)))).
Proof.
  intros Hne. unfold js_div.
  destruct (Qeq_bool (js_length xs) (0 # 1)) eqn:Hz.
  - exfalso. apply Hne, js_length_le_zero, Qle_bool_iff.
    apply Qeq_bool_eq in Hz. rewrite Hz. apply Qle_refl.
  - unfold js_length. now rewrite double_of_Q_inject_Z.
Qed.

(** [reduce] adds the terms from the left, in the order of the array. *)
Lemma reduce_sum {A} (f : A -> float) (l : list A) (a : float) :
  fold_left (fun acc n => PrimFloat.add acc (f n)) l a
  = fold_left PrimFloat.add (map f l) a.
Proof. revert a; induction l as [|n l IH]; intros a; simpl; [reflexivity|]. apply IH. Qed.

(** The [?? 0] fallback never fires on [nodesWithStats]. *)
Lemma cpu_of_nodesWithStats (nodes : list PNode) :
  map cpu_or_zero (nodesWithStats nodes)
  = map (fun s => double_of_Q (cpu_percent s)) (present nodes).
Proof.
  unfold nodesWithStats, present, cpu_or_zero.
  induction nodes as [|n nodes IH]; simpl; [reflexivity|].
  destruct (stats n) eqn:E; simpl; rewrite ?E; now rewrite IH.
Qed.

Lemma length_nodesWithStats (nodes : list PNode) :
  length (nodesWithStats nodes) = length (present nodes).
Proof.
  rewrite <- (length_map cpu_or_zero), cpu_of_nodesWithStats.
  apply length_map.
Qed.

Lemma onlineNodes_count (nodes : list PNode) :
  onlineNodes nodes = js_length (filter (fun n => status n = online) nodes).
Proof.
  unfold onlineNodes. f_equal.
  induction nodes as [|n nodes IH]; simpl; [reflexivity|].
  rewrite filter_cons. destruct (decide (status n = online)) as [He|Hne].
  - rewrite (proj2 (Status_eqb_eq _ _) He). now rewrite IH.
  - destruct (Status_eqb (status n) online) eqn:Hb; [|exact IH].
    now apply Status_eqb_eq in Hb.
Qed.
End AggregatorFacts.

(** C4. For every fleet snapshot the derived metrics are defined: no
    division by zero is ever evaluated.  In the arithmetic of doubles the
    code uses (sums taken from the left in the order of the nodes, every
    operation rounded): the mean CPU is the sum of [cpu_percent] over the
    metrics that are present, divided by their number, and 0 when there are
    none; the total storage is the sum over all nodes of [storage_used],
    with 0 for a node without metrics; the health value is the number of
    online nodes divided by the number of nodes, times 100, and 0 for the
    empty snapshot; the health percentage shown is that value printed by
    [toFixed(0)]. *)
Theorem aggregate_never_divides_by_zero (nodes : list PNode) :
  (exists avg,
     Aggregator.avgCpu nodes = Some avg /\
     avg = match Aggregator.present nodes with
           | [] => PrimFloat.zero
           | _ :: _ =>
               PrimFloat.div
                 (Aggregator.sum_doubles
                    (map (fun s => double_of_Q (cpu_percent s))
                       (Aggregator.present nodes)))
                 (double_of_Z (Z.of_nat (length (Aggregator.present nodes))))
           end) /\
  Aggregator.totalStorage nodes
  = Aggregator.sum_doubles
      (map (fun n => match stats n with
                     | Some s => double_of_Z (storage_used s)
                     | None => PrimFloat.zero
                     end) nodes) /\
  (exists health,
     Aggregator.healthValue nodes = Some health /\
     Aggregator.healthPercent nodes = Some (toFixed0 health) /\
     health = match nodes with
              | [] => PrimFloat.zero
              | _ :: _ =>
                  PrimFloat.mul
                    (PrimFloat.div
                       (double_of_Z
                          (Z.of_nat
                             (length (filter (fun n => status n = online)
                                        nodes))))
                       (double_of_Z (Z.of_nat (length nodes))))
                    (double_of_Z 100)
              end).
Proof.
  split; [|split].
  - unfold Aggregator.avgCpu. rewrite js_length_positive.
    pose proof (length_nodesWithStats nodes) as Hlen.
    destruct (Aggregator.nodesWithStats nodes) as [|n0 withStats] eqn:Hw.
    + destruct (Aggregator.present nodes); [|discriminate].
      eexists; split; reflexivity.
    + rewrite js_div_defined by discriminate.
      eexists; split; [reflexivity|].
      destruct (Aggregator.present nodes) as [|s rest] eqn:Hp; [discriminate|].
      rewrite reduce_sum, <- Hw, cpu_of_nodesWithStats, Hp, Hw, Hlen.
      reflexivity.
  - unfold Aggregator.totalStorage. apply reduce_sum.
  - unfold Aggregator.healthValue, Aggregator.healthPercent,
      Aggregator.totalNodes.
    rewrite js_length_positive. destruct nodes as [|n rest] eqn:Hn.
    + eexists; split; [reflexivity|]. split; reflexivity.
    + rewrite js_div_defined by discriminate.
      cbn [mbind option_bind]. eexists; split; [reflexivity|].
      split; [reflexivity|].
      rewrite onlineNodes_count. unfold Aggregator.js_length.
      now rewrite double_of_Q_inject_Z.
Qed.

(** On the empty snapshot every derived value is 0. *)
Example aggregate_empty :
  Aggregator.avgCpu [] = Some PrimFloat.zero /\
  Aggregator.totalStorage [] = PrimFloat.zero /\
  Aggregator.healthPercent [] = Some "0".
Proof. repeat split. Qed.

(** The arithmetic is that of doubles: the mean of 0.1 and 0.2 is
    0.15000000000000002, ten nodes at 0.7 average to 0.7000000000000001,
    2^53 + 1 + 1 bytes add up to 2^53, and 23 online nodes out of 40 give
    57.49999999999999, shown as 57. *)
Example aggregate_in_doubles :
  Aggregator.avgCpu
    [Aggregator.sample (1 # 10) 0 online; Aggregator.sample (2 # 10) 0 online]
  = Some 0x1.3333333333334p-3%float /\
  Aggregator.avgCpu (repeat (Aggregator.sample (7 # 10) 0 online) 10)
  = Some 0x1.6666666666667p-1%float /\
  Aggregator.totalStorage
    [Aggregator.sample (1 # 1) (2 ^ 53) online;
     Aggregator.sample (1 # 1) 1 online; Aggregator.sample (1 # 1) 1 online]
  = 0x1p+53%float /\
  Aggregator.healthValue
    (repeat (Aggregator.sample (1 # 1) 0 online) 23
     ++ repeat (Aggregator.sample (1 # 1) 0 degraded) 17)
  = Some 0x1.cbfffffffffffp+5%float /\
  Aggregator.healthPercent
    (repeat (Aggregator.sample (1 # 1) 0 online) 23
     ++ repeat (Aggregator.sample (1 # 1) 0 degraded) 17)
  = Some "57".
Proof. repeat split; vm_compute; reflexivity. Qed.

(** ** Query view *)

Lemma prefix_spec (t s : string) :
  String.prefix t s = true <-> exists post, s = (t ++ post)%string.
Proof.
  revert t; induction s as [|b s IH]; intros [|a t]; simpl.
  - split; [exists ""; reflexivity | reflexivity].
  - split; [discriminate | intros (post & H); discriminate].
  - split; [exists (String b s); reflexivity | reflexivity].
  - destruct (ascii_dec a b) as [->|Hne].
    + rewrite IH. split; intros (post & H); exists post; congruence.
    + split; [discriminate | intros (post & H); congruence].
Qed.

Lemma includes_unfold (s t : string) :
  includes s t =
  if String.prefix t s then true
  else match s with
       | EmptyString => false
       | String _ r => includes r t
       end.
Proof. destruct s; reflexivity. Qed.

Lemma includes_spec (s t : string) :
  includes s t = true <-> QueryView.substring_of t s.
Proof.
  unfold QueryView.substring_of. induction s as [|c r IH];
    rewrite includes_unfold.
  - destruct (String.prefix t "") eqn:Hp.
    + apply prefix_spec in Hp as (post & Hp).
      split; [exists "", post; exact Hp | reflexivity].
    + split; [discriminate|]. intros (pre & post & H).
      destruct pre; [|discriminate]. simpl in H.
      assert (String.prefix t "" = true) by (apply prefix_spec; eauto).
      congruence.
  - destruct (String.prefix t (String c r)) eqn:Hp.
    + apply prefix_spec in Hp as (post & Hp).
      split; [exists "", post; exact Hp | reflexivity].
    + rewrite IH. split.
      * intros (pre & post & ->). exists (String c pre), post. reflexivity.
      * intros (pre & post & H). destruct pre as [|c' pre]; simpl in H.
        -- assert (String.prefix t (String c r) = true)
             by (apply prefix_spec; eauto).
           congruence.
        -- injection H as _ ->. eauto.
Qed.

(** C7 (as stated, refuted).  The search text "abc" selects a node whose
    key is "ABC123", although "abc" is a substring neither of its address
    nor of its key. *)
Lemma search_is_not_case_sensitive :
  let node := {| id := "10.0.0.3"; ip := "10.0.0.3"; status := online;
                 stats := None; version := "v0.8 Reinheim";
                 gossipPort := 8001; pubkey := Some "ABC123";
                 lastSeen := Some 1766180000000; error := None |} in
  In node (QueryView.filteredNodes [node] "abc" QueryView.filter_all) /\
  ~ QueryView.substring_of "abc" (ip node) /\
  ~ QueryView.substring_of "abc" "ABC123".
Proof.
  simpl. split; [left; reflexivity|].
  split; rewrite <- includes_spec; discriminate.
Qed.

(** C7 (amended).  A node is kept by [filteredNodes] exactly when it is in
    the snapshot, the lower-cased search text occurs in its lower-cased
    address or in its lower-cased public key (a node without key can only
    match through its address), and its status passes the status filter:
    the matching ignores letter case, and the two predicates are combined
    with AND. *)
Theorem filteredNodes_spec
    (nodes : list PNode) (searchQuery : string)
    (statusFilter : QueryView.StatusFilter) (node : PNode) :
  In node (QueryView.filteredNodes nodes searchQuery statusFilter) <->
  In node nodes /\
  (QueryView.substring_of (toLowerCase searchQuery) (toLowerCase (ip node)) \/
   exists key, pubkey node = Some key /\
     QueryView.substring_of (toLowerCase searchQuery) (toLowerCase key)) /\
  (statusFilter = QueryView.filter_all \/
   statusFilter = QueryView.filter_status (status node)).
Proof.
  unfold QueryView.filteredNodes. rewrite filter_In, andb_true_iff.
  assert (QueryView.matchesSearch searchQuery node = true <->
          (QueryView.substring_of (toLowerCase searchQuery)
             (toLowerCase (ip node)) \/
           exists key, pubkey node = Some key /\
             QueryView.substring_of (toLowerCase searchQuery)
               (toLowerCase key))) as Hsearch.
  { unfold QueryView.matchesSearch. rewrite orb_true_iff, includes_spec.
    apply or_iff_compat_l. destruct (pubkey node) as [key|].
    - rewrite includes_spec. split; [eauto|]. now intros (k & [= <-] & H).
    - split; [discriminate | intros (k & H & _); discriminate]. }
  assert (QueryView.matchesStatus statusFilter node = true <->
          (statusFilter = QueryView.filter_all \/
           statusFilter = QueryView.filter_status (status node))) as Hstatus.
  { unfold QueryView.matchesStatus. destruct statusFilter as [|s].
    - split; [auto|reflexivity].
    - rewrite Status_eqb_eq. split.
      + intros ->; auto.
      + intros [H|H]; congruence. }
  rewrite Hsearch, Hstatus. reflexivity.
Qed.

(** X18. In the second dashboard a node is listed exactly when the search
    text, as typed, occurs in its address or in its public key; a node
    without key can only match through its address. *)
Lemma Luxe_filteredNodes_spec
    (nodes : list PNode) (searchQuery : string) (node : PNode) :
  In node (Luxe.filteredNodes nodes searchQuery) <->
  In node nodes /\
  (QueryView.substring_of searchQuery (ip node) \/
   exists key, pubkey node = Some key /\
     QueryView.substring_of searchQuery key).
Proof.
  unfold Luxe.filteredNodes. rewrite filter_In, orb_true_iff, includes_spec.
  apply and_iff_compat_l, or_iff_compat_l. destruct (pubkey node) as [key|].
  - rewrite includes_spec. split; [eauto|]. now intros (k & [= <-] & H).
  - split; [discriminate | intros (k & H & _); discriminate].
Qed.

(** ** Poll triggers *)

Section TriggerFacts.
Import Trigger.

Lemma mounted_single_flight : single_flight mounted.
Proof. right; split; reflexivity. Qed.

Lemma step_single_flight (d d' : Dashboard) (ev : Event) :
  single_flight d ->
  (ev = Tick -> inflight d = 0%nat) ->
  step d ev = Some d' ->
  single_flight d'.
Proof.
  intros [[Hn Hr]|[Hn Hr]] Htick Hstep;
    destruct ev as [| |rs now|]; simpl in Hstep;
    rewrite ?Hr, ?Hn in Hstep; simpl in Hstep;
    try discriminate; injection Hstep as <-;
    unfold single_flight; simpl; rewrite ?Hn, ?Hr; auto.
  specialize (Htick eq_refl). congruence.
Qed.

Lemma trace_single_flight (evs : list Event) (d : Dashboard) :
  single_flight d ->
  ticks_when_idle d evs = true ->
  Forall single_flight (trace d evs).
Proof.
  revert d; induction evs as [|ev evs IH]; intros d Hd Hidle; simpl.
  - constructor; [exact Hd | constructor].
  - constructor; [exact Hd|].
    simpl in Hidle. apply andb_true_iff in Hidle as [Hev Hrest].
    destruct (step d ev) as [d'|] eqn:Hstep; [|constructor].
    apply IH; [|exact Hrest].
    apply (step_single_flight d d' ev Hd); [|exact Hstep].
    intros ->. now apply Nat.eqb_eq.
Qed.

(** A tick never looks at the state: it always starts a round. *)
Lemma tick_always_starts (d : Dashboard) :
  step d Tick = Some (start_round d).
Proof. reflexivity. Qed.
End TriggerFacts.

(** C9 (as stated, refuted).  After the first round has finished, the user
    asks for a refresh and the interval then fires before that round ends:
    two rounds are in flight. *)
Lemma tick_during_round_overlaps :
  exists d,
    last (Trigger.trace Trigger.mounted
            [Trigger.Finish [] 1766180000400; Trigger.Click; Trigger.Tick])
    = Some d /\
    Trigger.inflight d = 2%nat.
Proof. eexists; split; reflexivity. Qed.

(** C9 (amended).  A user request made while the refreshing flag is set is
    dropped.  For every sequence of triggers and round completions in which
    each interval tick arrives while no round is active, at every point at
    most one round is in flight. *)
Theorem single_flight_when_ticks_idle (evs : list Trigger.Event)
    (Hidle : Trigger.ticks_when_idle Trigger.mounted evs = true) :
  Forall (fun d => (Trigger.inflight d <= 1)%nat)
    (Trigger.trace Trigger.mounted evs) /\
  forall d, Trigger.isRefreshing d = true ->
            Trigger.step d Trigger.Click = Some d.
Proof.
  split.
  - eapply Forall_impl;
      [apply trace_single_flight; [apply mounted_single_flight | exact Hidle]|].
    intros d [[-> _]|[-> _]]; lia.
  - intros d Hr. simpl. now rewrite Hr.
Qed.

(** A user request during the first round, the end of the round, a tick, a
    second request during the round the tick started, and its failure. *)
Lemma single_flight_when_ticks_idle_witness :
  Forall (fun d => (Trigger.inflight d <= 1)%nat)
    (Trigger.trace Trigger.mounted
       [Trigger.Click; Trigger.Finish [] 1766180000400; Trigger.Tick;
        Trigger.Click; Trigger.Fail]) /\
  forall d, Trigger.isRefreshing d = true ->
            Trigger.step d Trigger.Click = Some d.
Proof.
  apply (single_flight_when_ticks_idle
           [Trigger.Click; Trigger.Finish [] 1766180000400; Trigger.Tick;
            Trigger.Click; Trigger.Fail]).
  reflexivity.
Defined.


(** * Further properties of the code *)

(** ** Query view *)

Lemma prefix_empty (s : string) : String.prefix "" s = true.
Proof. destruct s; reflexivity. Qed.

Lemma includes_empty (s : string) : includes s "" = true.
Proof. rewrite includes_unfold, prefix_empty. reflexivity. Qed.

Lemma lower_ascii_idempotent (c : ascii) :
  lower_ascii (lower_ascii c) = lower_ascii c.
Proof. destruct c as [[] [] [] [] [] [] [] []]; reflexivity. Qed.

Lemma toLowerCase_idempotent (s : string) :
  toLowerCase (toLowerCase s) = toLowerCase s.
Proof.
  induction s as [|c s IH]; simpl; [reflexivity|].
  now rewrite lower_ascii_idempotent, IH.
Qed.

Lemma toLowerCase_app (s t : string) :
  toLowerCase (s ++ t) = (toLowerCase s ++ toLowerCase t)%string.
Proof. induction s as [|c s IH]; simpl; [reflexivity|]. now rewrite IH. Qed.

Lemma substring_of_lower (t s : string) :
  QueryView.substring_of t s ->
  QueryView.substring_of (toLowerCase t) (toLowerCase s).
Proof.
  intros (pre & post & ->). exists (toLowerCase pre), (toLowerCase post).
  now rewrite !toLowerCase_app.
Qed.

Lemma filter_filter {A} (f g : A -> bool) (l : list A) :
  List.filter f (List.filter g l) = List.filter (fun x => g x && f x)%bool l.
Proof.
  induction l as [|x l IH]; simpl; [reflexivity|].
  destruct (g x); simpl; [destruct (f x)|]; now rewrite IH.
Qed.

Lemma filter_sublist {A} (f : A -> bool) (l : list A) :
  sublist (List.filter f l) l.
Proof.
  induction l as [|x l IH]; simpl; [constructor|].
  destruct (f x); now constructor.
Qed.

Lemma matchesSearch_empty (node : PNode) :
  QueryView.matchesSearch "" node = true.
Proof.
  unfold QueryView.matchesSearch. change (toLowerCase "") with "".
  now rewrite includes_empty.
Qed.

(** X1. With an empty search text and the status filter 'all', the query
    view returns the snapshot itself. *)
Theorem filteredNodes_no_criteria (nodes : list PNode) :
  QueryView.filteredNodes nodes "" QueryView.filter_all = nodes.
Proof.
  unfold QueryView.filteredNodes.
  induction nodes as [|n nodes IH]; [reflexivity|].
  cbn [List.filter]. rewrite matchesSearch_empty, IH. reflexivity.
Qed.

(** X2. The letter case of the search text does not matter: searching for
    the lower-cased text selects the same nodes. *)
Theorem filteredNodes_ignores_query_case
    (nodes : list PNode) (searchQuery : string)
    (statusFilter : QueryView.StatusFilter) :
  QueryView.filteredNodes nodes (toLowerCase searchQuery) statusFilter
  = QueryView.filteredNodes nodes searchQuery statusFilter.
Proof.
  unfold QueryView.filteredNodes, QueryView.matchesSearch.
  now rewrite toLowerCase_idempotent.
Qed.

(** X3. The result of the query view is a subsequence of the snapshot, in
    the same order, and narrowing a search result by status afterwards
    gives the same nodes as applying both criteria at once. *)
Theorem filteredNodes_subsequence_and_narrowing
    (nodes : list PNode) (searchQuery : string)
    (statusFilter : QueryView.StatusFilter) :
  sublist (QueryView.filteredNodes nodes searchQuery statusFilter) nodes /\
  QueryView.filteredNodes
    (QueryView.filteredNodes nodes searchQuery QueryView.filter_all)
    "" statusFilter
  = QueryView.filteredNodes nodes searchQuery statusFilter.
Proof.
  split; [apply filter_sublist|].
  unfold QueryView.filteredNodes. rewrite filter_filter.
  apply List.filter_ext. intros n. rewrite matchesSearch_empty.
  cbn [QueryView.matchesStatus]. now rewrite andb_true_r.
Qed.

(** X4. On ASCII text (addresses, base58 keys and an ASCII search text),
    every node found by the search of the second dashboard (raw strings) is
    also found by the search of the main dashboard with the status filter
    'all'. *)
Theorem Luxe_search_within_dashboard_search
    (nodes : list PNode) (searchQuery : string) (node : PNode)
    (Hquery : is_ascii searchQuery = true)
    (Hip : is_ascii (ip node) = true)
    (Hkey : forall key, pubkey node = Some key -> is_ascii key = true) :
  In node (Luxe.filteredNodes nodes searchQuery) ->
  In node (QueryView.filteredNodes nodes searchQuery QueryView.filter_all).
Proof.
  unfold Luxe.filteredNodes, QueryView.filteredNodes.
  rewrite !filter_In. intros [Hin Hmatch]. split; [exact Hin|].
  unfold QueryView.matchesSearch. simpl. rewrite andb_true_r.
  apply orb_true_iff in Hmatch as [Hi|Hk]; apply orb_true_iff.
  - left. apply includes_spec, substring_of_lower, includes_spec, Hi.
  - right. destruct (pubkey node) as [key|]; [|discriminate].
    apply includes_spec, substring_of_lower, includes_spec, Hk.
Qed.

Lemma Luxe_search_within_dashboard_search_witness :
  In {| id := "10.0.0.3"; ip := "10.0.0.3"; status := degraded;
        stats := None; version := "v0.9.2-rc"; gossipPort := 8001;
        pubkey := Some "xnd_mock_A1"; lastSeen := None; error := None |}
     (QueryView.filteredNodes
        [ {| id := "10.0.0.3"; ip := "10.0.0.3"; status := degraded;
             stats := None; version := "v0.9.2-rc"; gossipPort := 8001;
             pubkey := Some "xnd_mock_A1"; lastSeen := None;
             error := None |} ]
        "mock_A" QueryView.filter_all).
Proof.
  apply Luxe_search_within_dashboard_search.
  - reflexivity.
  - reflexivity.
  - intros key [= <-]. reflexivity.
  - left. reflexivity.
Defined.

(** ** RPC client and forwarding endpoint *)

Lemma unwrap_fulfils {T} (data : RpcResponse T) (r : T) :
  Rpc.unwrap data = Fulfilled r <->
  rpc_error data = None /\ rpc_result data = Some r.
Proof.
  unfold Rpc.unwrap.
  destruct (rpc_error data) as [e|], (rpc_result data) as [r'|];
    split; try discriminate; try (intros [? ?]; discriminate).
  - intros [= ->]. auto.
  - intros [_ [= ->]]. reflexivity.
Qed.

(** X5. [rpcCall] returns a value only for an OK response whose JSON parses
    to an envelope with a [result] and no [error]; on a transport fault, a
    non-OK status, a JSON that does not parse, a remote error or a missing
    result it rejects. *)
Theorem rpcCall_fulfils_iff (T : Type) (transport : Rpc.FetchResult T) (r : T) :
  Rpc.rpcCall transport = Fulfilled r <->
  exists data,
    transport = Rpc.HttpOk (Fulfilled data) /\
    rpc_error data = None /\ rpc_result data = Some r.
Proof.
  split.
  - destruct transport as [e | st [err|e] | [data|e]]; try discriminate.
    rewrite rpcCall_envelope. intros H. exists data.
    split; [reflexivity | now apply unwrap_fulfils].
  - intros (data & -> & He & Hr). rewrite rpcCall_envelope.
    now apply unwrap_fulfils.
Qed.

Lemma rpcCall_via_steps {Req T} (ip : string) (requestJson : Settled Req)
    (upstream : Req -> Settled (Settled (RpcResponse T))) :
  ip <> "" ->
  Proxy.rpcCall_via ip requestJson upstream =
  match await requestJson (fun body => await (upstream body) (fun j => j)) with
  | Fulfilled data => Rpc.unwrap data
  | Rejected e =>
      Rejected (JsError (or_else (Some (message_or e "Connection failed"))
                           "HTTP error! status: 500"))
  end.
Proof.
  intros Hip. unfold Proxy.rpcCall_via, Proxy.POST.
  destruct (String.eqb_spec ip "") as [->|_]; [congruence|].
  destruct requestJson as [body|e]; simpl; [|reflexivity].
  destruct (upstream body) as [[data|e]|e]; simpl; try reflexivity.
  apply rpcCall_envelope.
Qed.

(** X6. Through the forwarding endpoint, [rpcCall] returns a value exactly
    when the address is not empty, the request body parses, the upstream
    call answers, and its JSON is an envelope with a [result] and no
    [error]. *)
Theorem rpcCall_via_fulfils_iff (Req T : Type)
    (ip : string) (requestJson : Settled Req)
    (upstream : Req -> Settled (Settled (RpcResponse T))) (r : T) :
  Proxy.rpcCall_via ip requestJson upstream = Fulfilled r <->
  ip <> "" /\
  exists body data,
    requestJson = Fulfilled body /\
    upstream body = Fulfilled (Fulfilled data) /\
    rpc_error data = None /\ rpc_result data = Some r.
Proof.
  destruct (String.eqb_spec ip "") as [->|Hip].
  - split; [discriminate | intros [H _]; congruence].
  - rewrite rpcCall_via_steps by exact Hip. split.
    + destruct requestJson as [body|e]; simpl; [|discriminate].
      destruct (upstream body) as [[data|e]|e] eqn:Hup; simpl;
        try discriminate.
      intros H. apply unwrap_fulfils in H. split; [exact Hip|].
      exists body, data. rewrite Hup. tauto.
    + intros (_ & body & data & -> & Hup & He & Hr). simpl. rewrite Hup.
      simpl. now apply unwrap_fulfils.
Qed.

(** X7. When a step of the forwarding endpoint fails (parsing the request,
    the upstream call, or parsing its answer), the endpoint answers 500 with
    the message of that failure ("Connection failed" when the failure is
    not an [Error]), and [rpcCall] rejects with an [Error] carrying that
    message, or "HTTP error! status: 500" when the message is empty. *)
Theorem rpcCall_via_failure_message (Req T : Type)
    (ip : string) (requestJson : Settled Req)
    (upstream : Req -> Settled (Settled (RpcResponse T))) (e : Thrown)
    (Hip : ip <> "")
    (Hfail : requestJson = Rejected e \/
             exists body, requestJson = Fulfilled body /\
               (upstream body = Rejected e \/
                upstream body = Fulfilled (Rejected e))) :
  Proxy.POST (Some ip) requestJson upstream
  = Fulfilled (Proxy.Failure 500
      match e with
      | JsError m => m
      | JsValue => "Connection failed"
      end) /\
  Proxy.rpcCall_via ip requestJson upstream =
  Rejected (JsError
    match e with
    | JsError "" => "HTTP error! status: 500"
    | JsError m => m
    | JsValue => "Connection failed"
    end).
Proof.
  split.
  - unfold Proxy.POST.
    destruct (String.eqb_spec ip "") as [->|_]; [congruence|].
    destruct Hfail as [-> | (body & -> & [Hup|Hup])]; simpl; rewrite ?Hup;
      simpl; destruct e; reflexivity.
  - rewrite rpcCall_via_steps by exact Hip.
    destruct Hfail as [-> | (body & -> & [Hup|Hup])]; simpl; rewrite ?Hup;
      simpl; destruct e as [[|c m]|]; reflexivity.
Qed.

Lemma rpcCall_via_failure_message_witness :
  Proxy.POST (Req := string) (T := RpcResponse NodeStats)
    (Some "173.212.220.65") (Fulfilled "getStats")
    (fun _ => Rejected (JsError "fetch failed"))
  = Fulfilled (Proxy.Failure 500 "fetch failed") /\
  Proxy.rpcCall_via (Req := string) (T := NodeStats) "173.212.220.65"
    (Fulfilled "getStats")
    (fun _ => Rejected (JsError "fetch failed"))
  = Rejected (JsError "fetch failed").
Proof.
  apply (rpcCall_via_failure_message string NodeStats "173.212.220.65"
           (Fulfilled "getStats") (fun _ => Rejected (JsError "fetch failed"))
           (JsError "fetch failed")).
  - discriminate.
  - right. exists "getStats". split; [reflexivity | left; reflexivity].
Defined.

(** ** Fleet poller *)

(** X8. A round publishes nothing while the poll of some configured address
    has not settled: partial results are never handed to [setNodes]. *)
Theorem fetchData_waits_for_every_poll
    (ips : list string) (outcomes : nat -> Fleet.NodeOutcome)
    (completion : list nat) (i : nat)
    (Hi : (i < length ips)%nat) (Hpending : i ∉ completion) :
  Fleet.fetchData ips outcomes completion = None.
Proof.
  unfold Fleet.fetchData, Fleet.fetchData_with.
  rewrite (allSettled_pending _ completion i); [reflexivity| |exact Hpending].
  unfold Fleet.fetchPromises. now rewrite length_imap.
Qed.

Lemma fetchData_waits_for_every_poll_witness :
  Fleet.fetchData ["10.0.0.1"; "10.0.0.2"; "10.0.0.3"]
    (fun _ => {| Fleet.statsResult := Rejected JsValue;
                 Fleet.podsResult := Rejected JsValue;
                 Fleet.clock := 0 |})
    [2; 0]%nat
  = None.
Proof.
  apply (fetchData_waits_for_every_poll
           ["10.0.0.1"; "10.0.0.2"; "10.0.0.3"] _ [2; 0]%nat 1%nat).
  - simpl. lia.
  - intros Hin. apply elem_of_cons in Hin as [Hin|Hin]; [discriminate|].
    apply elem_of_cons in Hin as [Hin|Hin]; [discriminate|].
    now apply elem_of_nil in Hin.
Defined.

(** X9. What a round publishes does not depend on the order in which the
    polls settle: for the same per-node outcomes, two runs either agree or
    one of them is still waiting. *)
Theorem fetchData_result_independent_of_timing
    (ips : list string) (outcomes : nat -> Fleet.NodeOutcome)
    (completion1 completion2 : list nat) :
  Fleet.fetchData ips outcomes completion1 = None \/
  Fleet.fetchData ips outcomes completion2 = None \/
  Fleet.fetchData ips outcomes completion1
  = Fleet.fetchData ips outcomes completion2.
Proof.
  unfold Fleet.fetchData, Fleet.fetchData_with.
  destruct (Fleet.allSettled _ completion1) as [rs1|] eqn:H1; [|now left].
  destruct (Fleet.allSettled _ completion2) as [rs2|] eqn:H2;
    [|right; now left].
  apply allSettled_Some in H1, H2. subst. right; right. reflexivity.
Qed.

(** ** Aggregator *)

Lemma filter_length_all {A} (f : A -> bool) (l : list A) :
  length (List.filter f l) = length l <-> Forall (fun x => f x = true) l.
Proof.
  induction l as [|x l IH]; cbn [List.filter length].
  - split; [constructor | reflexivity].
  - pose proof (List.filter_length_le f l) as Hle.
    destruct (f x) eqn:Hx; cbn [length].
    + split.
      * intros [= H]. constructor; [exact Hx | now apply IH].
      * intros H. apply Forall_cons in H as [_ H]. f_equal. now apply IH.
    + split; [intros H; exfalso; lia|].
      intros H. apply Forall_cons in H as [H _]. congruence.
Qed.

Lemma js_length_eq {A B} (xs : list A) (ys : list B) :
  Qeq_bool (Aggregator.js_length xs) (Aggregator.js_length ys) = true <->
  length xs = length ys.
Proof.
  rewrite Qeq_bool_iff. unfold Aggregator.js_length.
  rewrite inject_Z_injective. split.
  - apply Nat2Z.inj.
  - intros ->. reflexivity.
Qed.

(** X10. The CORS warning is shown exactly when the snapshot is not empty
    and every node in it is offline. *)
Theorem showCorsWarning_iff (nodes : list PNode) :
  Aggregator.showCorsWarning nodes = true <->
  nodes <> [] /\ Forall (fun n => status n = offline) nodes.
Proof.
  unfold Aggregator.showCorsWarning, Aggregator.offlineNodes,
    Aggregator.totalNodes.
  rewrite andb_true_iff, js_length_eq, filter_length_all, js_length_positive.
  split; intros [H1 H2].
  - split; [destruct nodes; [discriminate | discriminate]|].
    eapply Forall_impl; [exact H1|]. intros n. apply Status_eqb_eq.
  - split; [|destruct nodes; [congruence | reflexivity]].
    eapply Forall_impl; [exact H2|]. intros n. apply Status_eqb_eq.
Qed.



(** ** Formatting helpers *)

(** X14. For a positive number of seconds [formatUptime] shows the two
    largest units, rounded down: days and hours from one day on, hours and
    minutes from one hour on, and minutes below that; the shown amount
    never exceeds the uptime and misses it by less than the smaller unit
    shown. *)
Theorem formatUptime_units (seconds : Z) (Hpos : 0 < seconds) :
  (exists d h r,
     0 < d /\ 0 <= h < 24 /\ 0 <= r < 3600 /\
     seconds = d * 86400 + h * 3600 + r /\
     Format.formatUptime (Some seconds)
     = (string_of_Z d ++ "d " ++ string_of_Z h ++ "h")%string) \/
  (exists h m r,
     0 < h < 24 /\ 0 <= m < 60 /\ 0 <= r < 60 /\
     seconds = h * 3600 + m * 60 + r /\
     Format.formatUptime (Some seconds)
     = (string_of_Z h ++ "h " ++ string_of_Z m ++ "m")%string) \/
  (exists m r,
     0 <= m < 60 /\ 0 <= r < 60 /\
     seconds = m * 60 + r /\
     Format.formatUptime (Some seconds) = (string_of_Z m ++ "m")%string).
Proof.
  unfold Format.formatUptime.
  destruct (Z.eqb_spec seconds 0) as [->|_]; [lia|].
  rewrite !Z.rem_mod_nonneg by lia.
  destruct (Z.ltb_spec 0 (seconds / 86400)) as [Hd|Hd].
  - left. exists (seconds / 86400), (seconds mod 86400 / 3600),
      ((seconds mod 86400) mod 3600).
    repeat split; try reflexivity; try assumption;
      Z.div_mod_to_equations; lia.
  - right. destruct (Z.ltb_spec 0 (seconds mod 86400 / 3600)) as [Hh|Hh].
    + left. exists (seconds mod 86400 / 3600), (seconds mod 3600 / 60),
        ((seconds mod 3600) mod 60).
      repeat split; try reflexivity; try assumption;
        Z.div_mod_to_equations; lia.
    + right. exists (seconds mod 3600 / 60), ((seconds mod 3600) mod 60).
      repeat split; try reflexivity;
        Z.div_mod_to_equations; lia.
Qed.

Lemma formatUptime_units_witness :
  (exists d h r,
     0 < d /\ 0 <= h < 24 /\ 0 <= r < 3600 /\
     2592000 = d * 86400 + h * 3600 + r /\
     Format.formatUptime (Some 2592000)
     = (string_of_Z d ++ "d " ++ string_of_Z h ++ "h")%string) \/
  (exists h m r,
     0 < h < 24 /\ 0 <= m < 60 /\ 0 <= r < 60 /\
     2592000 = h * 3600 + m * 60 + r /\
     Format.formatUptime (Some 2592000)
     = (string_of_Z h ++ "h " ++ string_of_Z m ++ "m")%string) \/
  (exists m r,
     0 <= m < 60 /\ 0 <= r < 60 /\
     2592000 = m * 60 + r /\
     Format.formatUptime (Some 2592000) = (string_of_Z m ++ "m")%string).
Proof. apply (formatUptime_units 2592000). reflexivity. Defined.

(** X15. [truncateAddress] shows "N/A" for a missing address, leaves an
    address of fewer than 12 code units unchanged (the empty one included),
    and replaces a longer one by its first 6 code units, three dots and its
    last 4 code units.  The result never has more than 13 code units. *)
Theorem truncateAddress_shape (addr : option (list N)) :
  (length (Format.truncateAddress addr) <= 13)%nat /\
  match addr with
  | None => Format.truncateAddress addr = Format.code_units "N/A"
  | Some a =>
      if Nat.ltb (length a) 12 then Format.truncateAddress addr = a
      else exists first rest front last,
          a = first ++ rest /\ length first = 6%nat /\
          a = front ++ last /\ length last = 4%nat /\
          Format.truncateAddress addr
          = first ++ Format.code_units "..." ++ last
  end.
Proof.
  destruct addr as [a|]; [|split; [simpl; lia | reflexivity]].
  unfold Format.truncateAddress.
  destruct (Nat.ltb_spec (length a) 12) as [Hshort|Hlong].
  - rewrite orb_true_r. split; [lia | reflexivity].
  - rewrite bool_decide_eq_false_2
      by (intros ->; simpl in Hlong; lia).
    cbn [orb].
    assert (length (take 6 a) = 6%nat) as Hfirst
      by (rewrite length_take; lia).
    assert (length (drop (length a - 4) a) = 4%nat) as Hlast
      by (rewrite length_drop; lia).
    split.
    + rewrite !length_app, Hfirst, Hlast. simpl. lia.
    + exists (take 6 a), (drop 6 a), (take (length a - 4) a),
        (drop (length a - 4) a).
      repeat split; try assumption; symmetry; apply take_drop.
Qed.

(** ** Poll triggers *)

(** A property that holds initially and is kept by every event holds in
    every state visited. *)
Lemma trace_invariant (P : Trigger.Dashboard -> Prop) :
  (forall d ev d', P d -> Trigger.step d ev = Some d' -> P d') ->
  forall evs d, P d -> Forall P (Trigger.trace d evs).
Proof.
  intros Hstep evs; induction evs as [|ev evs IH]; intros d Hd; simpl.
  - constructor; [exact Hd | constructor].
  - constructor; [exact Hd|].
    destruct (Trigger.step d ev) as [d'|] eqn:Hs; [|constructor].
    apply IH. eapply Hstep; eassumption.
Qed.

(** X16. Whatever the triggers do, overlapping ticks included, the
    refreshing flag is only ever set while at least one round is in
    flight. *)
Theorem refreshing_flag_implies_round_in_flight (evs : list Trigger.Event) :
  Forall (fun d => Trigger.isRefreshing d = true ->
                   (0 < Trigger.inflight d)%nat)
    (Trigger.trace Trigger.mounted evs).
Proof.
  apply trace_invariant.
  - intros d ev d' Hd Hs Hflag.
    destruct ev as [| |rs now|]; simpl in Hs.
    + injection Hs as <-. simpl. lia.
    + destruct (Trigger.isRefreshing d) eqn:Hr; injection Hs as <-.
      * now apply Hd.
      * simpl. lia.
    + destruct (0 <? Trigger.inflight d)%nat; [|discriminate].
      injection Hs as <-. discriminate.
    + destruct (0 <? Trigger.inflight d)%nat; [|discriminate].
      injection Hs as <-. discriminate.
  - intros _. simpl. lia.
Qed.

(** X17. The loading state is only ever shown before the first round has
    ended: in every state in which [loading] is set, no node list and no
    update time have been stored yet. *)
Theorem loading_only_before_first_result (evs : list Trigger.Event) :
  Forall (fun d => Trigger.loading d = true ->
                   Trigger.nodes d = [] /\ Trigger.lastUpdate d = None)
    (Trigger.trace Trigger.mounted evs).
Proof.
  apply trace_invariant.
  - intros d ev d' Hd Hs Hl.
    destruct ev as [| |rs now|]; simpl in Hs.
    + injection Hs as <-. now apply Hd.
    + destruct (Trigger.isRefreshing d); injection Hs as <-; now apply Hd.
    + destruct (0 <? Trigger.inflight d)%nat; [|discriminate].
      injection Hs as <-. discriminate.
    + destruct (0 <? Trigger.inflight d)%nat; [|discriminate].
      injection Hs as <-. discriminate.
  - intros _. split; reflexivity.
Qed.
